(** * The Bayesian-network notebook: dataset generation and structure learning

    A shallow embedding of [make_dataset] from [BayesianNetworks.ipynb] and of
    the notebook cell that feeds its result to [BayesianNetwork.from_samples].

    - numpy's two-dimensional integer array is a list of rows of [Z], with
      int64 wrap-around written out on every arithmetic operation;
    - column reads and writes ([X[:,j]], [X[:,j] = v]) are fallible: an index
      out of bounds or operands of different lengths raise in numpy, and give
      [None] here;
    - the global random generator is threaded explicitly as a state. *)

From Stdlib Require Import ZArith Lia.
From stdpp Require Import base option list relations sorting gmap.

Local Open Scope Z_scope.

(** ** int64 arithmetic *)

(** Two's-complement reduction to 64 bits, the dtype [randint] hands out. *)
Definition wrap64 (z : Z) : Z := (z + 2 ^ 63) `mod` 2 ^ 64 - 2 ^ 63.

Definition int64_range (z : Z) : Prop := - 2 ^ 63 ≤ z < 2 ^ 63.

(** ** Two-dimensional arrays *)

(** Rows in order; every row holds one value per column. *)
Abbreviation ndarray := (list (list Z)).

(** The shape [(r, c)] of an array. *)
Definition has_shape (r c : nat) (X : ndarray) : Prop :=
  length X = r ∧ Forall (λ row, length row = c) X.

(** [X[i, j]] *)
Definition item (X : ndarray) (i j : nat) : option Z :=
  row ← X !! i; row !! j.

(** [X[:, j]]: column [j], read before the statement writes anything;
    [None] is numpy's IndexError. *)
Definition get_col (X : ndarray) (j : nat) : option (list Z) :=
  mapM (λ row : list Z, row !! j) X.

(** [X[:, j] = v]: writes [v] down column [j]. [None] is numpy's error when
    [v] does not have one value per row or [j] is out of bounds. *)
Definition set_col (X : ndarray) (j : nat) (v : list Z) : option ndarray :=
  if decide (length v = length X) then
    mapM (λ rx : list Z * Z,
            if decide (j < length rx.1)%nat then Some (<[j := rx.2]> rx.1)
            else None)
         (zip X v)
  else None.

(** [k * v] for a Python integer [k] and a column [v]. *)
Definition scale (k : Z) (v : list Z) : list Z :=
  (λ x, wrap64 (k * x)) <$> v.

(** [u + v] for two columns; [None] when their lengths differ (numpy would
    broadcast a column of length one, which [make_dataset] never builds). *)
Definition vadd (u v : list Z) : option (list Z) :=
  if decide (length u = length v) then
    Some (zip_with (λ a b, wrap64 (a + b)) u v)
  else None.

(** ** The notebook *)

Section Notebook.

(** The state of numpy's global generator, and one bounded draw from it:
    [draw high s] is a value below [high] and the advanced state. *)
Variable rng : Type.
Variable draw : Z → rng → Z * rng.

Fixpoint draw_row (high : Z) (c : nat) (s : rng) : list Z * rng :=
  match c with
  | O => ([], s)
  | S c' =>
      let '(x, s1) := draw high s in
      let '(xs, s2) := draw_row high c' s1 in
      (x :: xs, s2)
  end.

Fixpoint draw_rows (high : Z) (r c : nat) (s : rng) : ndarray * rng :=
  match r with
  | O => ([], s)
  | S r' =>
      let '(row, s1) := draw_row high c s in
      let '(rows, s2) := draw_rows high r' c s1 in
      (row :: rows, s2)
  end.

(** [numpy.random.randint(high, size=(r, c))]: filled in row-major order. *)
Definition randint (high : Z) (size : nat * nat) (s : rng) : ndarray * rng :=
  draw_rows high size.1 size.2 s.

(** [make_dataset], statement by statement. *)
Definition make_dataset (s : rng) : option (ndarray * rng) :=
  let '(X, s) := randint 2 (2000%nat, 7%nat) s in
  (* X[:,2] = 3*X[:,1] *)
  c1 ← get_col X 1;
  X ← set_col X 2 (scale 3 c1);
  (* X[:,3] = 2*X[:,0] *)
  c0 ← get_col X 0;
  X ← set_col X 3 (scale 2 c0);
  (* X[:,5] = X[:,4] + 2*X[:,3] *)
  c4 ← get_col X 4;
  c3 ← get_col X 3;
  t ← vadd c4 (scale 2 c3);
  X ← set_col X 5 t;
  (* X[:,6] = 3*X[:,1] + 4*X[:,4] + 8*X[:,0] *)
  c1 ← get_col X 1;
  c4 ← get_col X 4;
  t ← vadd (scale 3 c1) (scale 4 c4);
  c0 ← get_col X 0;
  t ← vadd t (scale 8 c0);
  X ← set_col X 6 t;
  Some (X, s).

(** The learner, [BayesianNetwork.from_samples]: pomegranate's routine,
    taken as a parameter of the cell that calls it. *)
Variable model : Type.
Variable from_samples : ndarray → model.

(** The cell [X = make_dataset(); model = BayesianNetwork.from_samples(X)]:
    the data, the learned model and the generator state it leaves. *)
Definition notebook (s : rng) : option (ndarray * model * rng) :=
  '(X, s) ← make_dataset s;
  Some (X, from_samples X, s).

End Notebook.

Arguments draw_row {rng} draw high c s.
Arguments draw_rows {rng} draw high r c s.
Arguments randint {rng} draw high size s.
Arguments make_dataset {rng} draw s.
Arguments notebook {rng} draw {model} from_samples s.

(** The values a column can hold, read off the assignments of
    [make_dataset]: columns 0, 1 and 4 are drawn from {0, 1}; the others are
    the images of those under the linear rules. *)
Definition domain (j : nat) : list Z :=
  match j with
  | 0%nat | 1%nat | 4%nat => [0; 1]
  | 2%nat => [0; 3]
  | 3%nat => [0; 2]
  | 5%nat => [0; 1; 4; 5]
  | 6%nat => [0; 3; 4; 7; 8; 11; 12; 15]
  | _ => []
  end.

(** The Observation Table invariant of a table with [c] columns. *)
Definition observation_table (c : nat) (dom : nat → list Z) (X : ndarray) : Prop :=
  Forall (λ row, length row = c ∧ ∀ j x, row !! j = Some x → x ∈ dom j) X.

(** What the four assignments make of one drawn row. *)
Definition derived_row (row : list Z) : list Z :=
  match row with
  | [a; b; _; _; e; _; _] =>
      [a; b; wrap64 (3 * b); wrap64 (2 * a); e;
       wrap64 (e + wrap64 (2 * wrap64 (2 * a)));
       wrap64 (wrap64 (wrap64 (3 * b) + wrap64 (4 * e)) + wrap64 (8 * a))]
  | _ => row
  end.

(** ** A sample generator *)

(** A 31-bit linear congruential generator for concrete runs; a draw takes
    the high bits of the next state modulo [high]. *)
Definition lcg_next (s : Z) : Z := (s * 1103515245 + 12345) `mod` 2 ^ 31.

Definition lcg_draw (high : Z) (s : Z) : Z * Z :=
  let s' := lcg_next s in ((s' / 2 ^ 16) `mod` high, s').


(** ** Structure learning *)

(** Modelled from the spec: the Network of section 3, a mapping from each
    variable to its parent set; [BayesianNetwork.from_samples], which builds
    it, is pomegranate's and not part of the sources. A parent set is listed
    by increasing index. *)
Abbreviation network := (gmap nat (list nat)).

(** Modelled from the spec: [parents(variable)] of the Network Model. *)
Definition parents (G : network) (v : nat) : list nat := default [] (G !! v).

(** [edge G p v]: [p] is a direct predecessor of [v]. *)
Definition edge (G : network) (p v : nat) : Prop := p ∈ parents G v.

(** Modelled from the spec: the learned edge set of a Network, the pairs
    (parent, variable). *)
Definition edge_set (G : network) : gset (nat * nat) :=
  list_to_set (map_to_list G ≫= λ vP, (λ p, (p, vP.1)) <$> vP.2).

(** Modelled from the spec: the Network invariant, no variable is its own
    ancestor through any path. *)
Definition acyclic (G : network) : Prop := ∀ v, ¬ tc (edge G) v v.

(** All sub-lists of a list, the empty one first. *)
Fixpoint subsets (l : list nat) : list (list nat) :=
  match l with
  | [] => [[]]
  | x :: l' => subsets l' ++ (cons x <$> subsets l')
  end.

(** Lexicographic comparison of parent sets by variable index. *)
Fixpoint lex_ltb (P Q : list nat) : bool :=
  match P, Q with
  | [], _ :: _ => true
  | _, [] => false
  | p :: P', q :: Q' =>
      if (p <? q)%nat then true
      else if (q <? p)%nat then false
      else lex_ltb P' Q'
  end.

Section StructureSearch.

(** The Scoring Function: a score for a target variable and a candidate
    parent set on a table, with the strict order of scores; the higher
    score is the better fit. *)
Context {score_t : Type}.
Variable score : nat → list nat → ndarray → score_t.
Variable score_ltb : score_t → score_t → bool.

(** The optional bound on the size of a parent set. *)
Variable max_parents : option nat.

(** Modelled from the spec: the maximum parent-set size, when one is set. *)
Definition within_bound (P : list nat) : bool :=
  match max_parents with
  | Some k => bool_decide (length P ≤ k)%nat
  | None => true
  end.

(** Modelled from the spec: the candidate parent sets of a variable are the
    subsets of the variables earlier in the ordering, within the bound. *)
Definition candidates (earlier : list nat) : list (list nat) :=
  filter (λ P, within_bound P) (subsets (merge_sort (≤)%nat earlier)).

(** Modelled from the spec: [P] is chosen over [Q] when it scores higher;
    on equal scores when it is smaller; then when its indices are lower. *)
Definition preferred (X : ndarray) (v : nat) (P Q : list nat) : bool :=
  if score_ltb (score v Q X) (score v P X) then true
  else if score_ltb (score v P X) (score v Q X) then false
  else if (length P <? length Q)%nat then true
  else if (length Q <? length P)%nat then false
  else lex_ltb P Q.

(** Modelled from the spec: the selection among the candidates; a later
    candidate replaces the current one only when it is preferred to it. *)
Definition best_parents (X : ndarray) (v : nat) (cands : list (list nat))
  : list nat :=
  foldl (λ best P, if preferred X v P best then P else best) [] cands.

(** Modelled from the spec: the greedy search of section 4.3, which stands
    for pomegranate's [BayesianNetwork.from_samples] (not part of the
    sources). Variables are visited along the ordering; each takes the best
    candidate among the subsets of the variables visited before it. *)
Fixpoint search_from (X : ndarray) (earlier rest : list nat)
  : list (nat * list nat) :=
  match rest with
  | [] => []
  | v :: rest' =>
      (v, best_parents X v (candidates earlier))
        :: search_from X (earlier ++ [v]) rest'
  end.

(** Modelled from the spec: the learned Network, each variable of the
    ordering mapped to the parent set the search chose for it. *)
Definition structure_search (X : ndarray) (order : list nat) : network :=
  list_to_map (search_from X [] order).

End StructureSearch.

(** The learner on the seven variables of the notebook's table, in index
    order, with a constant score and no bound on the parent sets. *)
Definition sample_learner (X : ndarray) : network :=
  structure_search (λ _ _ _, 0) Z.ltb None X (seq 0 7).



(** [before order p v]: [p] comes earlier than [v] in the ordering. *)
Definition before (order : list nat) (p v : nat) : Prop :=
  ∃ i j, (i < j)%nat ∧ order !! i = Some p ∧ order !! j = Some v.

(** A variable is ready once all its parents have been output. *)
Definition ready (G : network) (done : list nat) (v : nat) : Prop :=
  Forall (λ p, p ∈ done) (parents G v).

Global Instance ready_dec G done v : Decision (ready G done v).
Proof. unfold ready. apply _. Defined.

(** Modelled from the spec: the topological sort that section 8 runs on the
    output graph, by repeated removal of a ready variable; [None] when
    variables remain and none is ready, that is when the graph has a cycle. *)
Fixpoint topo_loop (fuel : nat) (G : network) (todo done : list nat)
  : option (list nat) :=
  match todo, fuel with
  | [], _ => Some done
  | _ :: _, O => None
  | _ :: _, S fuel' =>
      match list_find (ready G done) todo with
      | None => None
      | Some (_, v) =>
          topo_loop fuel' G (filter (λ u, u ≠ v) todo) (done ++ [v])
      end
  end.

(** The topological sort of a graph over the variables [0 .. n-1]. *)
Definition topological_sort (n : nat) (G : network) : option (list nat) :=
  topo_loop n G (seq 0 n) [].

(** A list of variables in which every variable comes after its parents. *)
Definition parents_first (G : network) (L : list nat) : Prop :=
  ∀ i v, L !! i = Some v → ∀ p, p ∈ parents G v → p ∈ take i L.

(** ** The rows [make_dataset] can build *)

(** One row of the table as the four assignments leave it, from the values
    [a], [b], [e] drawn for columns 0, 1 and 4; column 5 is written as the
    source computes it, from the column 3 already assigned. *)
Definition row_of_bits (a b e : Z) : list Z :=
  [a; b; 3 * b; 2 * a; e; e + 2 * (2 * a); 3 * b + 4 * e + 8 * a].

(** The eight rows that three bits give. *)
Definition possible_rows : list (list Z) :=
  [row_of_bits 0 0 0; row_of_bits 0 0 1; row_of_bits 0 1 0; row_of_bits 0 1 1;
   row_of_bits 1 0 0; row_of_bits 1 0 1; row_of_bits 1 1 0; row_of_bits 1 1 1].

(** Two drawn rows that agree on the columns no assignment writes. *)
Definition agree_on_drawn (r1 r2 : list Z) : Prop :=
  r1 !! 0%nat = r2 !! 0%nat ∧ r1 !! 1%nat = r2 !! 1%nat ∧
  r1 !! 4%nat = r2 !! 4%nat.

(** A generator that replays a recorded stream: a draw hands out the next
    recorded value, reduced below [high]; an exhausted stream gives 0. *)
Definition replay_draw (high : Z) (s : list Z) : Z * list Z :=
  match s with
  | [] => (0, [])
  | x :: s' => (x `mod` high, s')
  end.

(** A row to record for the draw, with [a], [b], [e] in columns 0, 1, 4. *)
Definition recorded_row (t : Z * Z * Z) : list Z :=
  let '(a, b, e) := t in [a; b; 0; 0; e; 0; 0].

(** * Facts about the array operations *)

Lemma wrap64_small z : int64_range z → wrap64 z = z.
Proof.
  unfold int64_range, wrap64. intros Hz.
  rewrite Z.mod_small; lia.
Qed.

Section Columns.
Context {A : Type}.
Implicit Types (r : A → list Z) (c d : A → Z) (T : list A).

Lemma get_col_fmap r j T :
  Forall (λ t, (j < length (r t))%nat) T →
  get_col (r <$> T) j = Some ((λ t, default 0 (r t !! j)) <$> T).
Proof.
  intros Hj. unfold get_col. apply mapM_Some, Forall2_fmap, Forall_Forall2_diag.
  eapply Forall_impl; [exact Hj|]. intros t Ht; simpl in *.
  destruct (lookup_lt_is_Some_2 (r t) j Ht) as [x ->]. done.
Qed.

Lemma set_col_fmap r c j T :
  Forall (λ t, (j < length (r t))%nat) T →
  set_col (r <$> T) j (c <$> T) = Some ((λ t, <[j := c t]> (r t)) <$> T).
Proof.
  intros Hj. unfold set_col. rewrite !length_fmap, decide_True by done.
  apply mapM_Some. rewrite zip_with_fmap_l, zip_with_fmap_r, zip_with_diag.
  apply Forall2_fmap, Forall_Forall2_diag.
  eapply Forall_impl; [exact Hj|]. intros t Ht; simpl in *.
  by rewrite decide_True.
Qed.

Lemma scale_fmap k c T : scale k (c <$> T) = (λ t, wrap64 (k * c t)) <$> T.
Proof. unfold scale. by rewrite <- list_fmap_compose. Qed.

Lemma vadd_fmap c d T :
  vadd (c <$> T) (d <$> T) = Some ((λ t, wrap64 (c t + d t)) <$> T).
Proof.
  unfold vadd. rewrite !length_fmap, decide_True by done.
  by rewrite zip_with_fmap_l, zip_with_fmap_r, zip_with_diag.
Qed.
End Columns.

Lemma get_col_rows (R : ndarray) j :
  Forall (λ row, (j < length row)%nat) R →
  get_col R j = Some ((λ row, default 0 (row !! j)) <$> R).
Proof.
  intros Hj. rewrite <- (list_fmap_id R) at 1. by apply (get_col_fmap id).
Qed.

Lemma set_col_rows (R : ndarray) (c : list Z → Z) j :
  Forall (λ row, (j < length row)%nat) R →
  set_col R j (c <$> R) = Some ((λ row, <[j := c row]> row) <$> R).
Proof.
  intros Hj. rewrite <- (list_fmap_id R) at 1. by apply (set_col_fmap id).
Qed.

(** Every column index of [make_dataset] is within a row of seven values,
    whatever has been written to the row before. *)
Ltac width7 H :=
  eapply Forall_impl; [exact H|];
  let row := fresh "row" in let Hrow := fresh "Hrow" in
  intros row Hrow; cbn beta in Hrow |- *; rewrite ?length_insert; lia.

(** * Facts about the generator loop and [make_dataset] *)

Section NotebookFacts.
Context {rng : Type}.
Variable draw : Z → rng → Z * rng.

Lemma draw_row_length high c s : length (draw_row draw high c s).1 = c.
Proof.
  revert s. induction c as [|c IH]; intros s; [done|].
  cbn [draw_row]. destruct (draw high s) as [x s1].
  specialize (IH s1). destruct (draw_row draw high c s1) as [xs s2].
  cbn [fst] in *. cbn. congruence.
Qed.

Lemma draw_rows_shape high r c s : has_shape r c (draw_rows draw high r c s).1.
Proof.
  revert s. induction r as [|r IH]; intros s; [by split|].
  cbn [draw_rows]. pose proof (draw_row_length high c s) as Hrow.
  destruct (draw_row draw high c s) as [row s1].
  destruct (IH s1) as [Hlen Hall]. destruct (draw_rows draw high r c s1) as [rows s2].
  cbn [fst] in *. split; [cbn; congruence|]. by constructor.
Qed.

Lemma randint_shape high r c s : has_shape r c (randint draw high (r, c) s).1.
Proof. apply draw_rows_shape. Qed.

(** [make_dataset] never raises, and its result is the draw with every
    row rewritten by [derived_row]. *)
Lemma make_dataset_rows s :
  make_dataset draw s =
  Some (derived_row <$> (randint draw 2 (2000%nat, 7%nat) s).1,
        (randint draw 2 (2000%nat, 7%nat) s).2).
Proof.
  unfold make_dataset.
  destruct (randint_shape 2 2000 7 s) as [_ HR].
  destruct (randint draw 2 (2000%nat, 7%nat) s) as [R s']. cbn [fst snd] in *.
  rewrite get_col_rows by width7 HR. cbn [mbind option_bind].
  rewrite scale_fmap, set_col_rows by width7 HR. cbn [mbind option_bind].
  rewrite get_col_fmap by width7 HR. cbn [mbind option_bind].
  rewrite scale_fmap, set_col_fmap by width7 HR. cbn [mbind option_bind].
  rewrite !get_col_fmap by width7 HR. cbn [mbind option_bind].
  rewrite scale_fmap, vadd_fmap. cbn [mbind option_bind].
  rewrite set_col_fmap by width7 HR. cbn [mbind option_bind].
  rewrite !get_col_fmap by width7 HR. cbn [mbind option_bind].
  rewrite !scale_fmap, vadd_fmap. cbn [mbind option_bind].
  rewrite vadd_fmap. cbn [mbind option_bind].
  rewrite set_col_fmap by width7 HR. cbn [mbind option_bind].
  do 2 f_equal. apply Forall_fmap_ext.
  eapply Forall_impl; [exact HR|]. intros row Hrow.
  destruct row as [|a [|b [|c [|d [|e [|f [|g [|? ?]]]]]]]]; try discriminate Hrow.
  reflexivity.
Qed.

(** What numpy documents of [randint]: values in [[0, high)]. *)
Hypothesis draw_range : ∀ high s, 0 < high → 0 ≤ (draw high s).1 < high.

Lemma draw_row_range high c s :
  0 < high → Forall (λ x, 0 ≤ x < high) (draw_row draw high c s).1.
Proof.
  intros Hhigh. revert s. induction c as [|c IH]; intros s; [by constructor|].
  cbn [draw_row]. pose proof (draw_range high s Hhigh) as Hx.
  destruct (draw high s) as [x s1].
  specialize (IH s1). destruct (draw_row draw high c s1) as [xs s2].
  cbn [fst] in *. by constructor.
Qed.

Lemma draw_rows_range high r c s :
  0 < high → Forall (Forall (λ x, 0 ≤ x < high)) (draw_rows draw high r c s).1.
Proof.
  intros Hhigh. revert s. induction r as [|r IH]; intros s; [by constructor|].
  cbn [draw_rows]. pose proof (draw_row_range high c s Hhigh) as Hrow.
  destruct (draw_row draw high c s) as [row s1].
  specialize (IH s1). destruct (draw_rows draw high r c s1) as [rows s2].
  cbn [fst] in *. by constructor.
Qed.

(** A row of the returned array, through the row of the draw it comes
    from: three bits [a], [b], [e] in columns 0, 1, 4 and the four derived
    values, none of which overflows. *)
Lemma returned_row s X s' i row :
  make_dataset draw s = Some (X, s') →
  X !! i = Some row →
  ∃ a b c d e f g,
    (randint draw 2 (2000%nat, 7%nat) s).1 !! i = Some [a; b; c; d; e; f; g] ∧
    (a = 0 ∨ a = 1) ∧ (b = 0 ∨ b = 1) ∧ (e = 0 ∨ e = 1) ∧
    row = [a; b; 3 * b; 2 * a; e; e + 4 * a; 3 * b + 4 * e + 8 * a].
Proof.
  rewrite make_dataset_rows. intros [= <- <-] Hrow.
  apply list_lookup_fmap_Some in Hrow as (r & -> & Hr).
  destruct (randint_shape 2 2000 7 s) as [_ Hshape].
  pose proof (draw_rows_range 2 2000 7 s ltac:(lia)) as Hrange.
  change (draw_rows draw 2 2000 7 s) with (randint draw 2 (2000%nat, 7%nat) s) in Hrange.
  rewrite Forall_lookup in Hshape, Hrange.
  specialize (Hshape _ _ Hr). specialize (Hrange _ _ Hr).
  destruct r as [|a [|b [|c [|d [|e [|f [|g [|? ?]]]]]]]]; try discriminate Hshape.
  exists a, b, c, d, e, f, g.
  repeat match goal with H : Forall _ (_ :: _) |- _ => apply Forall_cons in H as [? H] end.
  split; [done|]. repeat (split; [lia|]).
  unfold derived_row.
  repeat match goal with
         | |- context [wrap64 ?z] =>
             rewrite (wrap64_small z) by (unfold int64_range; lia)
         end.
  repeat (f_equal; try lia).
Qed.

Lemma returned_length s X s' :
  make_dataset draw s = Some (X, s') → length X = 2000%nat.
Proof.
  rewrite make_dataset_rows. intros [= <- <-].
  rewrite length_fmap. apply randint_shape.
Qed.

Lemma make_dataset_returns s : ∃ X s', make_dataset draw s = Some (X, s').
Proof. eexists _, _. apply make_dataset_rows. Qed.

(** C1: every call of [make_dataset] returns an array in which every row
    has in column 5 the value of column 4 plus two times the value of
    column 3. *)
Theorem make_dataset_col5_from_cols_4_3 s :
  ∃ X s', make_dataset draw s = Some (X, s') ∧
    ∀ i row, X !! i = Some row →
      ∃ x3 x4 x5,
        row !! 3%nat = Some x3 ∧ row !! 4%nat = Some x4 ∧
        row !! 5%nat = Some x5 ∧ x5 = x4 + 2 * x3.
Proof.
  destruct (make_dataset_returns s) as (X & s' & Hrun).
  exists X, s'. split; [done|]. intros i row Hrow.
  destruct (returned_row _ _ _ _ _ Hrun Hrow)
    as (a & b & c & d & e & f & g & _ & _ & _ & _ & ->).
  exists (2 * a), e, (e + 4 * a). repeat split; lia.
Qed.

(** C2: every call of [make_dataset] returns, and what it returns is a
    table of exactly 2000 rows and 7 columns. *)
Theorem make_dataset_returns_2000_by_7 s :
  ∃ X s', make_dataset draw s = Some (X, s') ∧ has_shape 2000 7 X.
Proof.
  eexists _, _. split; [apply make_dataset_rows|].
  destruct (randint_shape 2 2000 7 s) as [Hlen Hall].
  split; [by rewrite length_fmap|].
  apply Forall_fmap. eapply Forall_impl; [exact Hall|].
  intros row Hrow; cbn beta in Hrow |- *.
  destruct row as [|a [|b [|c [|d [|e [|f [|g [|? ?]]]]]]]]; try discriminate Hrow.
  reflexivity.
Qed.

(** C3: every call of [make_dataset] returns an array in which column 2 is
    column 1 multiplied by the fixed constant 3 in every row, so that two
    rows with the same value in column 2 have the same value in column 1. *)
Theorem make_dataset_col2_is_3_col1 s :
  ∃ X s', make_dataset draw s = Some (X, s') ∧
    (∀ i row, X !! i = Some row →
       ∃ x1 x2, row !! 1%nat = Some x1 ∧ row !! 2%nat = Some x2 ∧ x2 = 3 * x1) ∧
    (∀ i i' row row', X !! i = Some row → X !! i' = Some row' →
       row !! 2%nat = row' !! 2%nat → row !! 1%nat = row' !! 1%nat).
Proof.
  destruct (make_dataset_returns s) as (X & s' & Hrun).
  exists X, s'. split; [done|]. split.
  - intros i row Hrow.
    destruct (returned_row _ _ _ _ _ Hrun Hrow)
      as (a & b & c & d & e & f & g & _ & _ & _ & _ & ->).
    by exists b, (3 * b).
  - intros i i' row row' Hrow Hrow'.
    destruct (returned_row _ _ _ _ _ Hrun Hrow)
      as (a & b & c & d & e & f & g & _ & _ & _ & _ & ->).
    destruct (returned_row _ _ _ _ _ Hrun Hrow')
      as (a' & b' & c' & d' & e' & f' & g' & _ & _ & _ & _ & ->).
    cbn. intros [= Heq]. f_equal. lia.
Qed.

(** C5: every call of [make_dataset] returns a table that satisfies the
    Observation Table invariant: every row has 7 columns and every value
    lies in the finite domain of its column (columns 0, 1 and 4 hold only
    0 or 1). *)
Theorem make_dataset_observation_table s :
  ∃ X s', make_dataset draw s = Some (X, s') ∧ observation_table 7 domain X.
Proof.
  destruct (make_dataset_returns s) as (X & s' & Hrun).
  exists X, s'. split; [done|].
  apply Forall_lookup. intros i row Hrow.
  destruct (returned_row _ _ _ _ _ Hrun Hrow)
    as (a & b & c & d & e & f & g & _ & Ha & Hb & He & ->).
  split; [done|]. intros j x Hx.
  do 7 (destruct j as [|j]; [injection Hx as <-; cbn [domain];
    destruct Ha as [-> | ->], Hb as [-> | ->], He as [-> | ->];
    cbn; rewrite !elem_of_cons; lia|]).
  discriminate Hx.
Qed.

(** C8: every call of [make_dataset] returns an array in which every row
    has in column 5 the value of column 4 plus four times the value of
    column 0, one of 0, 1, 4, 5: column 3 is already twice column 0 when
    column 5 is computed from it. *)
Theorem make_dataset_col5_from_cols_4_0 s :
  ∃ X s', make_dataset draw s = Some (X, s') ∧
    ∀ i row, X !! i = Some row →
      ∃ x0 x4 x5,
        row !! 0%nat = Some x0 ∧ row !! 4%nat = Some x4 ∧
        row !! 5%nat = Some x5 ∧ x5 = x4 + 4 * x0 ∧ x5 ∈ [0; 1; 4; 5].
Proof.
  destruct (make_dataset_returns s) as (X & s' & Hrun).
  exists X, s'. split; [done|]. intros i row Hrow.
  destruct (returned_row _ _ _ _ _ Hrun Hrow)
    as (a & b & c & d & e & f & g & _ & Ha & _ & He & ->).
  exists a, e, (e + 4 * a). repeat split.
  destruct Ha as [-> | ->], He as [-> | ->]; cbn; rewrite !elem_of_cons; lia.
Qed.

(** C9: the rule of column 6 is injective on three bits, so in the array a
    call of [make_dataset] returns, two rows with the same value in column 6
    have the same values in columns 0, 1 and 4. *)
Theorem make_dataset_col6_determines_bits s :
  (∀ a b c a' b' c' : Z,
     0 ≤ a ≤ 1 → 0 ≤ b ≤ 1 → 0 ≤ c ≤ 1 → 0 ≤ a' ≤ 1 → 0 ≤ b' ≤ 1 → 0 ≤ c' ≤ 1 →
     3 * b + 4 * c + 8 * a = 3 * b' + 4 * c' + 8 * a' →
     a = a' ∧ b = b' ∧ c = c') ∧
  ∃ X s', make_dataset draw s = Some (X, s') ∧
    ∀ i i' row row', X !! i = Some row → X !! i' = Some row' →
      row !! 6%nat = row' !! 6%nat →
      row !! 0%nat = row' !! 0%nat ∧ row !! 1%nat = row' !! 1%nat ∧
      row !! 4%nat = row' !! 4%nat.
Proof.
  split; [lia|].
  destruct (make_dataset_returns s) as (X & s' & Hrun).
  exists X, s'. split; [done|].
  intros i i' row row' Hrow Hrow'.
  destruct (returned_row _ _ _ _ _ Hrun Hrow)
    as (a & b & c & d & e & f & g & _ & Ha & Hb & He & ->).
  destruct (returned_row _ _ _ _ _ Hrun Hrow')
    as (a' & b' & c' & d' & e' & f' & g' & _ & Ha' & Hb' & He' & ->).
  cbn. intros [= Heq].
  assert (a = a' ∧ b = b' ∧ e = e') as (-> & -> & ->) by lia. done.
Qed.

(** C10: the assignments to columns 2, 3, 5 and 6 leave columns 0, 1 and 4
    as drawn: every entry of these columns in the returned array is the
    entry of the initial draw, a value in {0, 1}. *)
Theorem make_dataset_keeps_drawn_columns s :
  ∃ X s', make_dataset draw s = Some (X, s') ∧
    ∀ i j, (i < 2000)%nat → j ∈ [0; 1; 4]%nat →
      ∃ x, item X i j = Some x ∧
           item (randint draw 2 (2000%nat, 7%nat) s).1 i j = Some x ∧
           (x = 0 ∨ x = 1).
Proof.
  destruct (make_dataset_returns s) as (X & s' & Hrun).
  exists X, s'. split; [done|]. intros i j Hi Hj.
  destruct (lookup_lt_is_Some_2 X i) as [row Hrow];
    [by rewrite (returned_length _ _ _ Hrun)|].
  destruct (returned_row _ _ _ _ _ Hrun Hrow)
    as (a & b & c & d & e & f & g & Hdrawn & Ha & Hb & He & ->).
  repeat (apply elem_of_cons in Hj as [-> | Hj];
    [eexists; unfold item; rewrite Hrow, Hdrawn; by repeat split|]).
  by apply elem_of_nil in Hj.
Qed.




End NotebookFacts.

(** * Runs of the cell and the state of the generator *)

Lemma elem_of_edge_set G p v : (p, v) ∈ edge_set G ↔ edge G p v.
Proof.
  unfold edge_set, edge, parents.
  rewrite elem_of_list_to_set, list_elem_of_bind. split.
  - intros ([w P] & Hin & HG). cbn [fst snd] in Hin.
    apply list_elem_of_fmap in Hin as (q & [= -> ->] & Hq).
    apply elem_of_map_to_list in HG. by rewrite HG.
  - destruct (G !! v) as [P|] eqn:HG; cbn [default from_option id];
      [|by intros ?%elem_of_nil].
    intros Hp. exists (v, P). split; [|by apply elem_of_map_to_list].
    cbn [fst snd]. apply list_elem_of_fmap. by exists p.
Qed.

Section CellRuns.
Context {rng : Type}.
Variable draw : Z → rng → Z * rng.
Variable learn : ndarray → rng → network * rng.



End CellRuns.

(** * The sample generator *)

Lemma lcg_draw_range high s : 0 < high → 0 ≤ (lcg_draw high s).1 < high.
Proof. intros Hhigh. unfold lcg_draw. cbn [fst]. by apply Z.mod_pos_bound. Qed.

Lemma make_dataset_col5_from_cols_4_3_lcg :
  ∃ X s', make_dataset lcg_draw 42 = Some (X, s') ∧
    ∀ i row, X !! i = Some row →
      ∃ x3 x4 x5,
        row !! 3%nat = Some x3 ∧ row !! 4%nat = Some x4 ∧
        row !! 5%nat = Some x5 ∧ x5 = x4 + 2 * x3.
Proof. exact (make_dataset_col5_from_cols_4_3 lcg_draw lcg_draw_range 42). Defined.

Lemma make_dataset_col2_is_3_col1_lcg :
  ∃ X s', make_dataset lcg_draw 42 = Some (X, s') ∧
    (∀ i row, X !! i = Some row →
       ∃ x1 x2, row !! 1%nat = Some x1 ∧ row !! 2%nat = Some x2 ∧ x2 = 3 * x1) ∧
    (∀ i i' row row', X !! i = Some row → X !! i' = Some row' →
       row !! 2%nat = row' !! 2%nat → row !! 1%nat = row' !! 1%nat).
Proof. exact (make_dataset_col2_is_3_col1 lcg_draw lcg_draw_range 42). Defined.

Lemma make_dataset_observation_table_lcg :
  ∃ X s', make_dataset lcg_draw 42 = Some (X, s') ∧ observation_table 7 domain X.
Proof. exact (make_dataset_observation_table lcg_draw lcg_draw_range 42). Defined.

Lemma make_dataset_col5_from_cols_4_0_lcg :
  ∃ X s', make_dataset lcg_draw 42 = Some (X, s') ∧
    ∀ i row, X !! i = Some row →
      ∃ x0 x4 x5,
        row !! 0%nat = Some x0 ∧ row !! 4%nat = Some x4 ∧
        row !! 5%nat = Some x5 ∧ x5 = x4 + 4 * x0 ∧ x5 ∈ [0; 1; 4; 5].
Proof. exact (make_dataset_col5_from_cols_4_0 lcg_draw lcg_draw_range 42). Defined.

Lemma make_dataset_col6_determines_bits_lcg :
  (∀ a b c a' b' c' : Z,
     0 ≤ a ≤ 1 → 0 ≤ b ≤ 1 → 0 ≤ c ≤ 1 → 0 ≤ a' ≤ 1 → 0 ≤ b' ≤ 1 → 0 ≤ c' ≤ 1 →
     3 * b + 4 * c + 8 * a = 3 * b' + 4 * c' + 8 * a' →
     a = a' ∧ b = b' ∧ c = c') ∧
  ∃ X s', make_dataset lcg_draw 42 = Some (X, s') ∧
    ∀ i i' row row', X !! i = Some row → X !! i' = Some row' →
      row !! 6%nat = row' !! 6%nat →
      row !! 0%nat = row' !! 0%nat ∧ row !! 1%nat = row' !! 1%nat ∧
      row !! 4%nat = row' !! 4%nat.
Proof. exact (make_dataset_col6_determines_bits lcg_draw lcg_draw_range 42). Defined.

Lemma make_dataset_keeps_drawn_columns_lcg :
  ∃ X s', make_dataset lcg_draw 42 = Some (X, s') ∧
    ∀ i j, (i < 2000)%nat → j ∈ [0; 1; 4]%nat →
      ∃ x, item X i j = Some x ∧
           item (randint lcg_draw 2 (2000%nat, 7%nat) 42).1 i j = Some x ∧
           (x = 0 ∨ x = 1).
Proof. exact (make_dataset_keeps_drawn_columns lcg_draw lcg_draw_range 42). Defined.

(** The first rows of the run from state 42. *)
Example make_dataset_lcg_rows :
  take 3 <$> (fst <$> make_dataset lcg_draw 42) =
  Some [[1; 1; 3; 2; 0; 4; 11]; [0; 1; 3; 0; 0; 0; 3]; [1; 0; 0; 2; 1; 5; 12]].
Proof. vm_compute. reflexivity. Qed.

Example derived_row_bits :
  derived_row [1; 1; 0; 1; 0; 1; 0] = [1; 1; 3; 2; 0; 4; 11].
Proof. reflexivity. Qed.



(** * Structure search: the learned graph *)

Section StructureSearchFacts.
Local Open Scope nat_scope.

Context {score_t : Type}.
Variable score : nat → list nat → ndarray → score_t.
Variable score_ltb : score_t → score_t → bool.
Variable max_parents : option nat.
Variable X : ndarray.

Lemma subsets_elem l P p : P ∈ subsets l → p ∈ P → p ∈ l.
Proof.
  revert P. induction l as [|x l IH]; intros P; cbn [subsets].
  - intros ->%list_elem_of_singleton. by intros ?%elem_of_nil.
  - rewrite elem_of_app, list_elem_of_fmap.
    intros [HP | (Q & -> & HQ)] Hp.
    + right. by apply (IH P).
    + apply elem_of_cons in Hp as [-> | Hp]; [left | right; by apply (IH Q)].
Qed.

Lemma candidates_elem earlier P p :
  P ∈ candidates max_parents earlier → p ∈ P → p ∈ earlier.
Proof.
  unfold candidates. intros [_ HP]%list_elem_of_filter Hp.
  rewrite <- (merge_sort_Permutation (≤) earlier). by eapply subsets_elem.
Qed.

(** The chosen parent set is the empty set or one of the candidates. *)
Lemma best_parents_choice v cands :
  best_parents score score_ltb X v cands = []
  ∨ best_parents score score_ltb X v cands ∈ cands.
Proof.
  unfold best_parents.
  assert (∀ acc, acc = [] ∨ acc ∈ cands →
    ∀ l, l ⊆ cands →
      let r := foldl (λ best P,
                if preferred score score_ltb X v P best then P else best) acc l in
      r = [] ∨ r ∈ cands) as Hfold.
  { intros acc Hacc l. revert acc Hacc.
    induction l as [|P l IH]; intros acc Hacc Hl; [done|].
    cbn [foldl]. apply IH.
    - destruct (preferred _ _ _ _ _ _); [right; apply Hl; left | done].
    - intros Q HQ. apply Hl. by right. }
  apply (Hfold [] (or_introl eq_refl) cands). done.
Qed.

Lemma best_parents_earlier v earlier p :
  p ∈ best_parents score score_ltb X v (candidates max_parents earlier) →
  p ∈ earlier.
Proof.
  destruct (best_parents_choice v (candidates max_parents earlier)) as [-> | HP].
  - by intros ?%elem_of_nil.
  - by apply candidates_elem.
Qed.

(** Every entry of the search result sits at its variable's place in the
    ordering, with parents among the variables placed before. *)
Lemma search_from_elem earlier rest v P :
  (v, P) ∈ search_from score score_ltb max_parents X earlier rest →
  ∃ r1 r2, rest = r1 ++ v :: r2 ∧ ∀ p, p ∈ P → p ∈ earlier ++ r1.
Proof.
  revert earlier. induction rest as [|u rest IH]; intros earlier; cbn [search_from].
  - by intros ?%elem_of_nil.
  - intros [[= -> ->] | Hin]%elem_of_cons.
    + exists [], rest. split; [done|]. intros p Hp.
      rewrite app_nil_r. by eapply best_parents_earlier.
    + destruct (IH _ Hin) as (r1 & r2 & -> & Hps).
      exists (u :: r1), r2. split; [done|]. intros p Hp.
      specialize (Hps p Hp). by rewrite <- app_assoc in Hps.
Qed.

Lemma parents_before order p v :
  NoDup order →
  edge (structure_search score score_ltb max_parents X order) p v →
  before order p v.
Proof.
  intros Hnd. unfold edge, parents, structure_search.
  destruct (list_to_map _ !! v) as [P|] eqn:HG; cbn [default from_option id];
    [|by intros ?%elem_of_nil].
  intros Hp. apply elem_of_list_to_map_2 in HG.
  destruct (search_from_elem _ _ _ _ HG) as (r1 & r2 & -> & Hps).
  apply Hps, list_elem_of_lookup in Hp as [i Hi]. cbn [app] in Hi.
  exists i, (length r1). split; [by eapply lookup_lt_Some|].
  split; [by apply lookup_app_l_Some|]. by apply list_lookup_middle.
Qed.

Lemma before_irrefl order v : NoDup order → ¬ before order v v.
Proof.
  intros Hnd (i & j & Hij & Hi & Hj).
  pose proof (NoDup_lookup _ _ _ _ Hnd Hi Hj). lia.
Qed.

Lemma before_trans order a b c :
  NoDup order → before order a b → before order b c → before order a c.
Proof.
  intros Hnd (i & j & Hij & Hi & Hj) (j' & k & Hjk & Hj' & Hk).
  pose proof (NoDup_lookup _ _ _ _ Hnd Hj Hj') as <-.
  exists i, k. split; [lia|done].
Qed.

Lemma ancestor_before order a b :
  NoDup order →
  tc (edge (structure_search score score_ltb max_parents X order)) a b →
  before order a b.
Proof.
  intros Hnd. induction 1 as [a b Hab | a b c Hab _ IH].
  - by apply parents_before.
  - eapply before_trans; [done| |exact IH]. by apply parents_before.
Qed.

End StructureSearchFacts.

(** * Topological sort *)

Section TopologicalSort.
Local Open Scope nat_scope.

Variable G : network.

Lemma filter_other_absent (l : list nat) v :
  v ∉ l → filter (λ u, u ≠ v) l = l.
Proof.
  induction l as [|x l IH]; [done|].
  intros [Hx Hl]%not_elem_of_cons.
  rewrite filter_cons_True by done. by rewrite IH.
Qed.

Lemma filter_other_Permutation (l : list nat) v :
  NoDup l → v ∈ l → l ≡ₚ v :: filter (λ u, u ≠ v) l.
Proof.
  induction 1 as [|x l Hx Hnd IH]; [by intros ?%elem_of_nil|].
  intros [-> | Hv]%elem_of_cons.
  - rewrite filter_cons_False by (intros ?; done).
    by rewrite filter_other_absent.
  - rewrite filter_cons_True by (intros ->; done).
    rewrite (IH Hv) at 1. apply Permutation_swap.
Qed.

(** What the loop returns lists the variables it was given, each after its
    parents. *)
Lemma topo_loop_sound fuel todo done L :
  topo_loop fuel G todo done = Some L →
  NoDup todo → parents_first G done →
  parents_first G L ∧ L ≡ₚ done ++ todo.
Proof.
  revert todo done. induction fuel as [|fuel IH]; intros todo done.
  - destruct todo; [|done]. intros [= <-] _ Hdone. by rewrite app_nil_r.
  - destruct todo as [|u todo]; [intros [= <-] _ Hdone; by rewrite app_nil_r|].
    cbn [topo_loop].
    destruct (list_find (ready G done) (u :: todo)) as [[k v]|] eqn:Hfind; [|done].
    apply list_find_Some in Hfind as (Hk & Hready & _).
    apply list_elem_of_lookup_2 in Hk.
    intros Hloop Hnd Hdone.
    destruct (IH _ _ Hloop) as [HL Hperm].
    + by apply NoDup_filter.
    + intros i w Hi p Hp.
      destruct (decide (i < length done)) as [Hlt | Hge].
      * rewrite lookup_app_l in Hi by done.
        rewrite take_app_le by lia. by eapply Hdone.
      * rewrite lookup_app_r in Hi by lia.
        apply list_lookup_singleton_Some in Hi as [Hi <-].
        rewrite take_app_ge by lia. apply elem_of_app. left.
        unfold ready in Hready. rewrite Forall_forall in Hready. by apply Hready.
    + split; [done|]. rewrite Hperm, <- app_assoc. f_equiv. cbn [app].
      symmetry. by apply filter_other_Permutation.
Qed.

Variable order : list nat.
Hypothesis order_NoDup : NoDup order.
Hypothesis edges_before : ∀ p v, edge G p v → before order p v.

(** While variables remain, the one placed first in the ordering is ready. *)
Lemma ready_exists todo done :
  todo ≠ [] → todo ⊆ order → (∀ v, v ∈ order → v ∈ todo ∨ v ∈ done) →
  ∃ v, v ∈ todo ∧ ready G done v.
Proof.
  intros Hne Hsub Hcover.
  destruct (list_find (λ v, v ∈ todo) order) as [[i v]|] eqn:Hfind.
  - apply list_find_Some in Hfind as (Hi & Hv & Hmin).
    exists v. split; [done|]. apply Forall_forall. intros p Hp.
    destruct (edges_before p v Hp) as (i' & j' & Hlt & Hi' & Hj').
    pose proof (NoDup_lookup _ _ _ _ order_NoDup Hi Hj') as <-.
    destruct (Hcover p) as [Hp' | Hp']; [by eapply list_elem_of_lookup_2| |done].
    by destruct (Hmin i' p).
  - apply list_find_None in Hfind. rewrite Forall_forall in Hfind.
    destruct todo as [|u todo]; [done|].
    destruct (Hfind u); [apply Hsub|]; by left.
Qed.

Lemma topo_loop_succeeds fuel todo done :
  length todo ≤ fuel → todo ⊆ order →
  (∀ v, v ∈ order → v ∈ todo ∨ v ∈ done) →
  is_Some (topo_loop fuel G todo done).
Proof.
  revert todo done. induction fuel as [|fuel IH]; intros todo done Hlen Hsub Hcover.
  - destruct todo; [by eexists | cbn in Hlen; lia].
  - destruct (decide (todo = [])) as [-> | Hne]; [by eexists|].
    destruct (ready_exists todo done) as (w & Hw & Hready); [done..|].
    replace (topo_loop (S fuel) G todo done) with
      (match list_find (ready G done) todo with
       | None => None
       | Some (_, v) =>
           topo_loop fuel G (filter (λ u, u ≠ v) todo) (done ++ [v])
       end) by (by destruct todo).
    destruct (list_find (ready G done) todo) as [[k v]|] eqn:Hfind.
    + apply list_find_Some in Hfind as (Hk & _ & _).
      apply list_elem_of_lookup_2 in Hk. apply IH.
      * pose proof (length_filter_lt (λ u, u ≠ v) todo v Hk (λ H, H eq_refl)).
        lia.
      * intros x [_ Hx]%list_elem_of_filter. by apply Hsub.
      * intros x Hx. destruct (decide (x = v)) as [-> | Hxv].
        { right. apply elem_of_app. right. by left. }
        destruct (Hcover x Hx) as [? | ?].
        { left. by apply list_elem_of_filter. }
        { right. apply elem_of_app. by left. }
    + apply list_find_None in Hfind. rewrite Forall_forall in Hfind.
      by destruct (Hfind w).
Qed.

End TopologicalSort.

(** * The learned network is a directed acyclic graph *)

(** C6: in the network the structure search learns along any ordering of
    the variables [0 .. n-1], no variable is among its own parents, no
    variable is its own ancestor, and the topological sort of the learned
    graph succeeds: it returns all the variables, each after its parents. *)
Theorem structure_search_acyclic
    {score_t : Type} (score : nat → list nat → ndarray → score_t)
    (score_ltb : score_t → score_t → bool) (max_parents : option nat)
    (X : ndarray) (order : list nat) (n : nat) :
  order ≡ₚ seq 0 n →
  (∀ v, v ∉ parents (structure_search score score_ltb max_parents X order) v) ∧
  acyclic (structure_search score score_ltb max_parents X order) ∧
  ∃ L,
    topological_sort n (structure_search score score_ltb max_parents X order)
      = Some L ∧
    L ≡ₚ seq 0 n ∧
    parents_first (structure_search score score_ltb max_parents X order) L.
Proof.
  intros Hperm.
  assert (NoDup order) as Hnd by (rewrite Hperm; apply NoDup_seq).
  set (G := structure_search score score_ltb max_parents X order).
  split; [|split].
  - intros v Hv. apply (before_irrefl order v Hnd).
    by apply (parents_before score score_ltb max_parents X).
  - intros v Hv. apply (before_irrefl order v Hnd).
    by apply (ancestor_before score score_ltb max_parents X).
  - destruct (topo_loop_succeeds G order Hnd
                (λ p v, parents_before score score_ltb max_parents X order p v Hnd)
                n (seq 0 n) []) as [L HL].
    + by rewrite length_seq.
    + intros v Hv. by rewrite Hperm.
    + intros v Hv. left. by rewrite <- Hperm.
    + exists L. split; [exact HL|].
      destruct (topo_loop_sound G n (seq 0 n) [] L HL) as [Hfirst HLperm].
      * apply NoDup_seq.
      * intros i v Hi. by rewrite lookup_nil in Hi.
      * done.
Qed.

Lemma structure_search_acyclic_three :
  (∀ v, v ∉ parents
     (structure_search (λ _ P _, length P) Nat.ltb (Some 2%nat)
        [[0; 0; 0]; [1; 3; 2]] [2; 0; 1]%nat) v) ∧
  acyclic
    (structure_search (λ _ P _, length P) Nat.ltb (Some 2%nat)
       [[0; 0; 0]; [1; 3; 2]] [2; 0; 1]%nat) ∧
  ∃ L,
    topological_sort 3
      (structure_search (λ _ P _, length P) Nat.ltb (Some 2%nat)
         [[0; 0; 0]; [1; 3; 2]] [2; 0; 1]%nat)
      = Some L ∧
    L ≡ₚ seq 0 3 ∧
    parents_first
      (structure_search (λ _ P _, length P) Nat.ltb (Some 2%nat)
         [[0; 0; 0]; [1; 3; 2]] [2; 0; 1]%nat) L.
Proof.
  apply (structure_search_acyclic (λ _ P _, length P) Nat.ltb (Some 2%nat)
           [[0; 0; 0]; [1; 3; 2]] [2; 0; 1]%nat 3).
  apply (Permutation_cons_append [0; 1]%nat 2%nat).
Defined.

Example search_three_parents :
  let G := structure_search (λ _ P _, length P) Nat.ltb (Some 2%nat)
             [[0; 0; 0]; [1; 3; 2]] [2; 0; 1]%nat in
  parents G 2 = [] ∧ parents G 0 = [2]%nat ∧ parents G 1 = [0; 2]%nat ∧
  topological_sort 3 G = Some [2; 0; 1]%nat.
Proof. vm_compute. done. Qed.

(** * More on the table [make_dataset] returns *)

Section TableFacts.
Context {rng : Type}.
Variable draw : Z → rng → Z * rng.

(** The generator state after [c] draws in a row, and after a whole
    array: one draw per entry, and nothing else. *)
Lemma draw_row_state high c s :
  (draw_row draw high c s).2 = Nat.iter c (λ t, (draw high t).2) s.
Proof.
  revert s. induction c as [|c IH]; intros s; [done|].
  rewrite Nat.iter_succ_r. cbn [draw_row]. specialize (IH (draw high s).2).
  destruct (draw high s) as [x s1]. cbn [snd] in IH.
  destruct (draw_row draw high c s1) as [xs s2]. exact IH.
Qed.

Lemma draw_rows_state high r c s :
  (draw_rows draw high r c s).2 = Nat.iter (r * c) (λ t, (draw high t).2) s.
Proof.
  revert s. induction r as [|r IH]; intros s; [done|].
  replace (S r * c)%nat with (r * c + c)%nat by lia. rewrite Nat.iter_add.
  cbn [draw_rows]. pose proof (draw_row_state high c s) as Hrow.
  destruct (draw_row draw high c s) as [row s1]. cbn [snd] in Hrow.
  specialize (IH s1). destruct (draw_rows draw high r c s1) as [rows s2].
  cbn [snd] in *. by rewrite IH, Hrow.
Qed.

(** X8: a call of [make_dataset] leaves the generator in the state reached
    by exactly 2000 * 7 draws below 2: the four column assignments draw
    nothing. *)
Theorem make_dataset_advances_generator s :
  ∃ X, make_dataset draw s
       = Some (X, Nat.iter (2000 * 7) (λ t, (draw 2 t).2) s).
Proof.
  eexists. rewrite make_dataset_rows. do 2 f_equal.
  unfold randint. cbn [fst snd]. apply draw_rows_state.
Qed.

Hypothesis draw_range : ∀ high s, 0 < high → 0 ≤ (draw high s).1 < high.

Lemma returned_row_of_bits s X s' i row :
  make_dataset draw s = Some (X, s') →
  X !! i = Some row →
  ∃ a b e, (a = 0 ∨ a = 1) ∧ (b = 0 ∨ b = 1) ∧ (e = 0 ∨ e = 1) ∧
           row = row_of_bits a b e.
Proof.
  intros Hrun Hrow.
  destruct (returned_row draw draw_range _ _ _ _ _ Hrun Hrow)
    as (a & b & c & d & e & f & g & _ & Ha & Hb & He & ->).
  exists a, b, e. repeat (split; [done|]).
  unfold row_of_bits. repeat (f_equal; try lia).
Qed.

(** X1: every call of [make_dataset] returns an array in which column 3 is
    twice column 0 in every row, so that two rows with the same value in
    column 3 have the same value in column 0. *)
Theorem make_dataset_col3_is_2_col0 s :
  ∃ X s', make_dataset draw s = Some (X, s') ∧
    (∀ i row, X !! i = Some row →
       ∃ x0 x3, row !! 0%nat = Some x0 ∧ row !! 3%nat = Some x3 ∧ x3 = 2 * x0) ∧
    (∀ i i' row row', X !! i = Some row → X !! i' = Some row' →
       row !! 3%nat = row' !! 3%nat → row !! 0%nat = row' !! 0%nat).
Proof.
  destruct (make_dataset_returns draw s) as (X & s' & Hrun).
  exists X, s'. split; [done|]. split.
  - intros i row Hrow.
    destruct (returned_row_of_bits _ _ _ _ _ Hrun Hrow) as (a & b & e & _ & _ & _ & ->).
    by exists a, (2 * a).
  - intros i i' row row' Hrow Hrow'.
    destruct (returned_row_of_bits _ _ _ _ _ Hrun Hrow) as (a & b & e & _ & _ & _ & ->).
    destruct (returned_row_of_bits _ _ _ _ _ Hrun Hrow')
      as (a' & b' & e' & _ & _ & _ & ->).
    cbn. intros [= Heq]. f_equal. lia.
Qed.

(** X2: every call of [make_dataset] returns an array in which every row
    has in column 6 three times column 1 plus four times column 4 plus
    eight times column 0. *)
Theorem make_dataset_col6_rule s :
  ∃ X s', make_dataset draw s = Some (X, s') ∧
    ∀ i row, X !! i = Some row →
      ∃ x0 x1 x4 x6,
        row !! 0%nat = Some x0 ∧ row !! 1%nat = Some x1 ∧
        row !! 4%nat = Some x4 ∧ row !! 6%nat = Some x6 ∧
        x6 = 3 * x1 + 4 * x4 + 8 * x0.
Proof.
  destruct (make_dataset_returns draw s) as (X & s' & Hrun).
  exists X, s'. split; [done|]. intros i row Hrow.
  destruct (returned_row_of_bits _ _ _ _ _ Hrun Hrow) as (a & b & e & _ & _ & _ & ->).
  by exists a, b, e, (3 * b + 4 * e + 8 * a).
Qed.

(** X3: in the array a call of [make_dataset] returns, two rows with the
    same value in column 6 are the same row, in all seven columns. *)
Theorem make_dataset_col6_determines_row s :
  ∃ X s', make_dataset draw s = Some (X, s') ∧
    ∀ i i' row row', X !! i = Some row → X !! i' = Some row' →
      row !! 6%nat = row' !! 6%nat → row = row'.
Proof.
  destruct (make_dataset_returns draw s) as (X & s' & Hrun).
  exists X, s'. split; [done|]. intros i i' row row' Hrow Hrow'.
  destruct (returned_row_of_bits _ _ _ _ _ Hrun Hrow) as (a & b & e & Ha & Hb & He & ->).
  destruct (returned_row_of_bits _ _ _ _ _ Hrun Hrow')
    as (a' & b' & e' & Ha' & Hb' & He' & ->).
  cbn. intros [= Heq].
  assert (a = a' ∧ b = b' ∧ e = e') as (-> & -> & ->) by lia. done.
Qed.

(** X4: every row of the array a call of [make_dataset] returns is one of
    the eight rows [possible_rows]: the table has at most eight distinct
    rows. *)
Theorem make_dataset_rows_among_eight s :
  ∃ X s', make_dataset draw s = Some (X, s') ∧
    ∀ row, row ∈ X → row ∈ possible_rows.
Proof.
  destruct (make_dataset_returns draw s) as (X & s' & Hrun).
  exists X, s'. split; [done|]. intros row [i Hrow]%list_elem_of_lookup.
  destruct (returned_row_of_bits _ _ _ _ _ Hrun Hrow) as (a & b & e & Ha & Hb & He & ->).
  unfold possible_rows. rewrite !elem_of_cons.
  destruct Ha as [-> | ->], Hb as [-> | ->], He as [-> | ->]; tauto.
Qed.

(** X10: in the array a call of [make_dataset] returns, two rows with the
    same value in column 5 have the same values in columns 0, 3 and 4. *)
Theorem make_dataset_col5_determines_cols_0_3_4 s :
  ∃ X s', make_dataset draw s = Some (X, s') ∧
    ∀ i i' row row', X !! i = Some row → X !! i' = Some row' →
      row !! 5%nat = row' !! 5%nat →
      row !! 0%nat = row' !! 0%nat ∧ row !! 3%nat = row' !! 3%nat ∧
      row !! 4%nat = row' !! 4%nat.
Proof.
  destruct (make_dataset_returns draw s) as (X & s' & Hrun).
  exists X, s'. split; [done|]. intros i i' row row' Hrow Hrow'.
  destruct (returned_row_of_bits _ _ _ _ _ Hrun Hrow) as (a & b & e & Ha & Hb & He & ->).
  destruct (returned_row_of_bits _ _ _ _ _ Hrun Hrow')
    as (a' & b' & e' & Ha' & Hb' & He' & ->).
  cbn. intros [= Heq].
  assert (a = a' ∧ e = e') as (-> & ->) by lia. done.
Qed.

Lemma returned_observation_table s X s' :
  make_dataset draw s = Some (X, s') → observation_table 7 domain X.
Proof.
  intros Hrun. apply Forall_lookup. intros i row Hrow.
  destruct (returned_row_of_bits _ _ _ _ _ Hrun Hrow) as (a & b & e & Ha & Hb & He & ->).
  split; [done|]. intros j x Hx.
  do 7 (destruct j as [|j]; [injection Hx as <-; cbn [domain];
    destruct Ha as [-> | ->], Hb as [-> | ->], He as [-> | ->];
    cbn; rewrite !elem_of_cons; lia|]).
  discriminate Hx.
Qed.

(** X9: the notebook cell always reaches the learner, and hands
    [from_samples] the table [make_dataset] built: 2000 rows of 7 values,
    every value within the domain of its column. *)
Theorem notebook_feeds_observation_table
    {model : Type} (from_samples : ndarray → model) s :
  ∃ X s', notebook draw from_samples s = Some (X, from_samples X, s') ∧
    has_shape 2000 7 X ∧ observation_table 7 domain X.
Proof.
  destruct (make_dataset_returns draw s) as (X & s' & Hrun).
  exists X, s'. split; [unfold notebook; by rewrite Hrun|].
  pose proof (returned_observation_table _ _ _ Hrun) as Htable.
  split; [|done]. split; [by eapply returned_length|].
  eapply Forall_impl; [exact Htable|]. by intros row [Hlen _].
Qed.

End TableFacts.

(** * Which tables [make_dataset] can return *)

Lemma replay_draw_range high s : 0 < high → 0 ≤ (replay_draw high s).1 < high.
Proof.
  intros Hhigh. destruct s as [|x s]; cbn [replay_draw fst]; [lia|].
  by apply Z.mod_pos_bound.
Qed.

(** Replaying a recorded row, then a recorded array, gives them back. *)
Lemma replay_row high row s :
  Forall (λ x, 0 ≤ x < high) row →
  draw_row replay_draw high (length row) (row ++ s) = (row, s).
Proof.
  induction 1 as [|x row Hx _ IH]; [done|].
  cbn [length app draw_row replay_draw]. rewrite IH.
  by rewrite Z.mod_small.
Qed.

Lemma replay_rows high c rows s :
  Forall (λ row, length row = c ∧ Forall (λ x, 0 ≤ x < high) row) rows →
  draw_rows replay_draw high (length rows) c (concat rows ++ s) = (rows, s).
Proof.
  induction 1 as [|row rows [<- Hrow] _ IH]; [done|].
  cbn [length concat draw_rows]. rewrite <- app_assoc.
  by rewrite (replay_row _ _ _ Hrow), IH.
Qed.

Lemma replay_randint rows :
  length rows = 2000%nat →
  Forall (λ row, length row = 7%nat ∧ Forall (λ x, 0 ≤ x < 2) row) rows →
  randint replay_draw 2 (2000%nat, 7%nat) (concat rows) = (rows, []).
Proof.
  intros Hlen Hrows. unfold randint. cbn [fst snd]. rewrite <- Hlen.
  rewrite <- (app_nil_r (concat rows)). by apply replay_rows.
Qed.

Lemma derived_row_agree r1 r2 :
  length r1 = 7%nat → length r2 = 7%nat → agree_on_drawn r1 r2 →
  derived_row r1 = derived_row r2.
Proof.
  intros H1 H2 (H0 & H1' & H4).
  destruct r1 as [|a [|b [|c [|d [|e [|f [|g [|? ?]]]]]]]]; try discriminate H1.
  destruct r2 as [|a' [|b' [|c' [|d' [|e' [|f' [|g' [|? ?]]]]]]]]; try discriminate H2.
  injection H0 as ->. injection H1' as ->. injection H4 as ->. reflexivity.
Qed.

(** X5: the table [make_dataset] returns depends on the draw only through
    columns 0, 1 and 4: two calls, from any generators, whose draws agree
    on these three columns return the same table, whatever was drawn for
    the columns the assignments overwrite. *)
Theorem make_dataset_ignores_overwritten_draws
    {rng1 rng2 : Type} (draw1 : Z → rng1 → Z * rng1)
    (draw2 : Z → rng2 → Z * rng2) (s1 : rng1) (s2 : rng2) :
  Forall2 agree_on_drawn
    (randint draw1 2 (2000%nat, 7%nat) s1).1
    (randint draw2 2 (2000%nat, 7%nat) s2).1 →
  fst <$> make_dataset draw1 s1 = fst <$> make_dataset draw2 s2.
Proof.
  intros Hagree. rewrite !make_dataset_rows.
  cbn [fmap option_fmap option_map fst]. f_equal.
  destruct (randint_shape draw1 2 2000 7 s1) as [_ Hshape1].
  destruct (randint_shape draw2 2 2000 7 s2) as [_ Hshape2].
  revert Hshape1 Hshape2.
  induction Hagree as [|r1 r2 R1 R2 Hr _ IH]; [done|].
  intros [Hlen1 Hrest1]%Forall_cons [Hlen2 Hrest2]%Forall_cons.
  cbn [fmap list_fmap]. f_equal; [by apply derived_row_agree | by apply IH].
Qed.

Lemma make_dataset_ignores_overwritten_draws_replay :
  fst <$> make_dataset replay_draw (concat (replicate 2000 [1; 0; 1; 1; 1; 0; 1]))
  = fst <$> make_dataset replay_draw (concat (replicate 2000 [1; 0; 0; 0; 1; 1; 0])).
Proof.
  apply make_dataset_ignores_overwritten_draws.
  rewrite !replay_randint.
  - cbn [fst]. apply Forall2_replicate. by repeat split.
  - apply length_replicate.
  - apply Forall_replicate. split; [reflexivity|]. repeat constructor; lia.
  - apply length_replicate.
  - apply Forall_replicate. split; [reflexivity|]. repeat constructor; lia.
Defined.

Lemma derived_recorded_row t :
  (t.1.1 = 0 ∨ t.1.1 = 1) ∧ (t.1.2 = 0 ∨ t.1.2 = 1) ∧ (t.2 = 0 ∨ t.2 = 1) →
  derived_row (recorded_row t) = row_of_bits t.1.1 t.1.2 t.2.
Proof.
  destruct t as [[a b] e]. cbn [fst snd recorded_row].
  intros ([-> | ->] & [-> | ->] & [-> | ->]); reflexivity.
Qed.

Lemma replay_table (T : list (Z * Z * Z)) :
  length T = 2000%nat →
  Forall (λ t, (t.1.1 = 0 ∨ t.1.1 = 1) ∧ (t.1.2 = 0 ∨ t.1.2 = 1) ∧
               (t.2 = 0 ∨ t.2 = 1)) T →
  make_dataset replay_draw (concat (recorded_row <$> T))
  = Some ((λ t, row_of_bits t.1.1 t.1.2 t.2) <$> T, []).
Proof.
  intros Hlen Hbits. rewrite make_dataset_rows, replay_randint.
  - cbn [fst snd]. do 2 f_equal. rewrite <- list_fmap_compose.
    apply Forall_fmap_ext. eapply Forall_impl; [exact Hbits|].
    intros t Ht. by apply derived_recorded_row.
  - by rewrite length_fmap.
  - apply Forall_fmap. eapply Forall_impl; [exact Hbits|].
    intros [[a b] e] (Ha & Hb & He). cbn in Ha, Hb, He |- *.
    split; [done|]. repeat constructor; lia.
Qed.

(** X6: every table of 2000 rows built from bits by the rules of
    [make_dataset] is returned by some call: for any 2000 triples of bits
    there is a recorded stream from which [make_dataset] returns exactly
    the rows [row_of_bits] gives for them. *)
Theorem make_dataset_attains_table (T : list (Z * Z * Z)) :
  length T = 2000%nat →
  Forall (λ t, (t.1.1 = 0 ∨ t.1.1 = 1) ∧ (t.1.2 = 0 ∨ t.1.2 = 1) ∧
               (t.2 = 0 ∨ t.2 = 1)) T →
  ∃ s s', make_dataset replay_draw s
          = Some ((λ t, row_of_bits t.1.1 t.1.2 t.2) <$> T, s').
Proof. intros Hlen Hbits. eexists _, _. by apply replay_table. Qed.

Lemma make_dataset_attains_table_101 :
  ∃ s s', make_dataset replay_draw s
          = Some ((λ t, row_of_bits t.1.1 t.1.2 t.2) <$> replicate 2000 (1, 0, 1), s').
Proof.
  apply make_dataset_attains_table.
  - apply length_replicate.
  - apply Forall_replicate. cbn [fst snd]. repeat split; (by left) || (by right).
Defined.

Lemma domain_value_bits j x :
  x ∈ domain j →
  ∃ a b e, (a = 0 ∨ a = 1) ∧ (b = 0 ∨ b = 1) ∧ (e = 0 ∨ e = 1) ∧
           row_of_bits a b e !! j = Some x.
Proof.
  intros Hx.
  do 7 (destruct j as [|j];
    [cbn [domain] in Hx; rewrite ?elem_of_cons, elem_of_nil in Hx;
     repeat (destruct Hx as [-> | Hx]); try done;
     first [ exists 0, 0, 0; by repeat split; try tauto
           | exists 0, 0, 1; by repeat split; try tauto
           | exists 0, 1, 0; by repeat split; try tauto
           | exists 0, 1, 1; by repeat split; try tauto
           | exists 1, 0, 0; by repeat split; try tauto
           | exists 1, 0, 1; by repeat split; try tauto
           | exists 1, 1, 0; by repeat split; try tauto
           | exists 1, 1, 1; by repeat split; try tauto ]|]).
  cbn [domain] in Hx. by apply elem_of_nil in Hx.
Qed.

(** X7: the domains are exact: every value of the domain of a column is
    held in that column by the table some call of [make_dataset] returns. *)
Theorem domain_values_attained j x :
  x ∈ domain j →
  ∃ s X s', make_dataset replay_draw s = Some (X, s') ∧
            ∃ i, item X i j = Some x.
Proof.
  intros (a & b & e & Ha & Hb & He & Hjx)%domain_value_bits.
  eexists _, _, _. split.
  - apply (replay_table (replicate 2000 (a, b, e))).
    + apply length_replicate.
    + by apply Forall_replicate.
  - exists 0%nat. unfold item. rewrite list_lookup_fmap.
    rewrite lookup_replicate_2 by lia. exact Hjx.
Qed.

Lemma domain_values_attained_col6_11 :
  ∃ s X s', make_dataset replay_draw s = Some (X, s') ∧
            ∃ i, item X i 6 = Some 11.
Proof.
  apply domain_values_attained.
  cbn [domain]. rewrite !elem_of_cons. tauto.
Defined.

(** * The extra facts on the sample generator *)

Lemma make_dataset_col3_is_2_col0_lcg :
  ∃ X s', make_dataset lcg_draw 42 = Some (X, s') ∧
    (∀ i row, X !! i = Some row →
       ∃ x0 x3, row !! 0%nat = Some x0 ∧ row !! 3%nat = Some x3 ∧ x3 = 2 * x0) ∧
    (∀ i i' row row', X !! i = Some row → X !! i' = Some row' →
       row !! 3%nat = row' !! 3%nat → row !! 0%nat = row' !! 0%nat).
Proof. exact (make_dataset_col3_is_2_col0 lcg_draw lcg_draw_range 42). Defined.

Lemma make_dataset_col6_rule_lcg :
  ∃ X s', make_dataset lcg_draw 42 = Some (X, s') ∧
    ∀ i row, X !! i = Some row →
      ∃ x0 x1 x4 x6,
        row !! 0%nat = Some x0 ∧ row !! 1%nat = Some x1 ∧
        row !! 4%nat = Some x4 ∧ row !! 6%nat = Some x6 ∧
        x6 = 3 * x1 + 4 * x4 + 8 * x0.
Proof. exact (make_dataset_col6_rule lcg_draw lcg_draw_range 42). Defined.

Lemma make_dataset_col6_determines_row_lcg :
  ∃ X s', make_dataset lcg_draw 42 = Some (X, s') ∧
    ∀ i i' row row', X !! i = Some row → X !! i' = Some row' →
      row !! 6%nat = row' !! 6%nat → row = row'.
Proof. exact (make_dataset_col6_determines_row lcg_draw lcg_draw_range 42). Defined.

Lemma make_dataset_rows_among_eight_lcg :
  ∃ X s', make_dataset lcg_draw 42 = Some (X, s') ∧
    ∀ row, row ∈ X → row ∈ possible_rows.
Proof. exact (make_dataset_rows_among_eight lcg_draw lcg_draw_range 42). Defined.

Lemma make_dataset_col5_determines_cols_0_3_4_lcg :
  ∃ X s', make_dataset lcg_draw 42 = Some (X, s') ∧
    ∀ i i' row row', X !! i = Some row → X !! i' = Some row' →
      row !! 5%nat = row' !! 5%nat →
      row !! 0%nat = row' !! 0%nat ∧ row !! 3%nat = row' !! 3%nat ∧
      row !! 4%nat = row' !! 4%nat.
Proof.
  exact (make_dataset_col5_determines_cols_0_3_4 lcg_draw lcg_draw_range 42).
Defined.

Lemma notebook_feeds_observation_table_lcg :
  ∃ X s', notebook lcg_draw sample_learner 42 = Some (X, sample_learner X, s') ∧
    has_shape 2000 7 X ∧ observation_table 7 domain X.
Proof.
  exact (notebook_feeds_observation_table lcg_draw lcg_draw_range
           sample_learner 42).
Defined.
